(** * Series navigation widget (src/components/series-navigation.tsx)

    A shallow embedding of the [SeriesNavigation] React component and of
    the small part of React it relies on: the element tree a render
    returns, the single [useState] cell holding [isOpen], and the click
    handler the button carries.  Theorems about the header, the toggle,
    the list items, their links and their highlighting follow. *)

From stdpp Require Import base option list strings pretty.

#[local] Set Warnings "-register-all".

(** ** Props

    [type Props = { title: string; articles: { slug: string; title:
    string }[]; current: string }].  The component reads [articles] and
    every [article] through optional chaining ([articles?.map],
    [article?.slug], [article?.title]), so both are nullable here:
    [None] stands for [null] or [undefined]. *)

Module Article.
Record t := mk { slug : string; title : string }.
End Article.

Record Props := {
  title : string;
  articles : option (list (option Article.t));
  current : string
}.

(** ** Element trees

    What a render returns.  Children are JavaScript values: elements,
    strings, numbers, [false] (from [isOpen && ...]), [undefined] (from
    [articles?.map] and [article?.title]) and arrays (from [map]).
    [UpIcon], [DownIcon] (from [./icons]) and [Link] (from [next/link])
    are imported components: they stay element types of the tree, with
    the props the component gives them. *)

Inductive elem_type := Div | H2 | Button | Ul | Li | Span | UpIcon | DownIcon | Link.

(** The only event handler is [toggleList], a closure that calls
    [setIsOpen] with a value fixed when the closure is created. *)
Inductive handler := SetIsOpen (value : bool).

Inductive prop_value := Str (s : string) | Handler (h : handler).

Inductive node :=
| Element (type : elem_type) (key : option nat)
    (props : list (string * prop_value)) (children : list node)
| Text (s : string)
| Number (n : nat)
| JsFalse
| JsUndefined
| Array (items : list node).

Global Instance elem_type_eq_dec : EqDecision elem_type.
Proof. solve_decision. Defined.

Global Instance handler_eq_dec : EqDecision handler.
Proof. solve_decision. Defined.

Global Instance prop_value_eq_dec : EqDecision prop_value.
Proof. solve_decision. Defined.

(** ** The pieces of JavaScript the component uses *)

(** [o?.f]: [undefined] when [o] is null or undefined. *)
Definition optional {A B} (f : A → B) (o : option A) : option B := f <$> o.

(** [s + v] for a string [s]: [undefined] is converted to the string
    ["undefined"]. *)
Definition concat_value (s : string) (v : option string) : string :=
  s +:+ default "undefined" v.

(** [v === s] for a string [s]: [undefined] is equal to no string. *)
Definition strict_eq (v : option string) (s : string) : bool :=
  bool_decide (v = Some s).

(** [{v}] as a JSX child, for a string or [undefined]. *)
Definition child_of (v : option string) : node := from_option Text JsUndefined v.

(** [`${b && s}`]: [false] is interpolated as the string ["false"]. *)
Definition interpolate_and (b : bool) (s : string) : string :=
  if b then s else "false".

(** [useState(initial)]: the cell is empty before the first render, and
    holds the last value given to the setter afterwards. *)
Definition useState (initial : bool) (cell : option bool) : bool * (bool → handler) :=
  (default initial cell, SetIsOpen).

(** ** The component *)

Definition highlight_class : string :=
  "font-medium text-slate-900 underline decoration-slate-400 decoration-2 underline-offset-2 dark:text-slate-100 dark:decoration-slate-700".

Definition plain_class : string :=
  "text-slate-700 hover:text-slate-900 dark:text-slate-300 dark:hover:text-slate-100".

Definition base_url : string := "https://ayoubkhial.com/blog/".

(** The callback given to [articles?.map]. *)
Definition item (current : string) (index : nat) (article : option Article.t) : node :=
  Element Li (Some index)
    [("className",
      Str (if strict_eq (optional Article.slug article) current
           then highlight_class else plain_class))]
    [Element Link None
       [("href", Str (concat_value base_url (optional Article.slug article)));
        ("target", Str "_blank");
        ("rel", Str "noopener noreferrer");
        ("className", Str "flex items-center gap-2")]
       [Element Span None
          [("className", Str "font-medium text-slate-900 dark:text-slate-100")]
          [Text "Part "; Number (index + 1); Text ":"];
        Text " ";
        child_of (optional Article.title article)]].

Definition SeriesNavigation (p : Props) (cell : option bool) : node :=
  let '(isOpen, setIsOpen) := useState false cell in
  let toggleList := setIsOpen (negb isOpen) in
  Element Div None
    [("id", Str "accordion-collapse"); ("data-accordion", Str "collapse")]
    [Element Div None
       [("className",
         Str ("flex justify-between rounded-lg rounded-b-none border border-slate-300 bg-slate-100 p-3 dark:border-slate-700 dark:bg-slate-900 "
              +:+ interpolate_and isOpen "border-b-slate-200"))]
       [Element H2 None
          [("className", Str "font-heading text-3 font-medium text-slate-900 dark:text-slate-100")]
          [Text (title p); Text " - Article Series"];
        Element Button None
          [("onClick", Handler toggleList);
           ("data-accordion-target", Str "#accordion-collapse-body");
           ("aria-expanded", Str "true");
           ("aria-controls", Str "accordion-collapse-body")]
          [if isOpen then Element UpIcon None [] [] else Element DownIcon None [] []]];
     if isOpen then
       Element Div None
         [("id", Str "accordion-collapse-body");
          ("aria-labelledby", Str "accordion-collapse-heading")]
         [Element Ul None
            [("className",
              Str "flex flex-col gap-3 border border-t-0 border-slate-300 bg-slate-100 p-3 
dark:border-slate-700 dark:bg-slate-900")]
            [from_option (λ l, Array (imap (item (current p)) l)) JsUndefined (articles p)]]
     else JsFalse].

(** ** Reading an element tree *)

(** Every element of the tree, the root first, in document order.
    [false] and [undefined] hold no element; arrays are flattened. *)
Fixpoint elements (n : node) : list node :=
  match n with
  | Element _ _ _ children => n :: flat_map elements children
  | Array items => flat_map elements items
  | _ => []
  end.

Definition has_type (t : elem_type) (n : node) : bool :=
  match n with
  | Element t' _ _ _ => bool_decide (t' = t)
  | _ => false
  end.

Definition select (t : elem_type) (n : node) : list node :=
  List.filter (has_type t) (elements n).

Fixpoint assoc (name : string) (ps : list (string * prop_value)) : option prop_value :=
  match ps with
  | [] => None
  | (k, v) :: ps' => if bool_decide (k = name) then Some v else assoc name ps'
  end.

Definition prop (name : string) (n : node) : option prop_value :=
  match n with
  | Element _ _ ps _ => assoc name ps
  | _ => None
  end.

(** The text React puts in the document for a tree: strings as they
    are, numbers in decimal, nothing for [false] and [undefined].  The
    only numbers are [index + 1] for an array index, which JavaScript
    prints as the plain decimal numeral. *)
Fixpoint text_content (n : node) : string :=
  match n with
  | Element _ _ _ children => foldr (λ c acc, text_content c +:+ acc) EmptyString children
  | Text s => s
  | Number k => pretty k
  | JsFalse | JsUndefined => EmptyString
  | Array items => foldr (λ c acc, text_content c +:+ acc) EmptyString items
  end.

Definition children (n : node) : list node :=
  match n with
  | Element _ _ _ cs => cs
  | _ => []
  end.

Definition key (n : node) : option nat :=
  match n with
  | Element _ k _ _ => k
  | _ => None
  end.

(** An item is highlighted when it carries the class list the component
    gives to the current article. *)
Definition highlighted (n : node) : bool :=
  bool_decide (prop "className" n = Some (Str highlight_class)).

(** ** The widget at run time

    React keeps the [useState] cell between renders.  A click on the
    button runs the handler found in the tree of the latest render; the
    setter stores its argument in the cell, and the component is
    rendered again before the next click is handled. *)

Definition mount : option bool := None.

Definition run (h : handler) (cell : option bool) : option bool :=
  match h with
  | SetIsOpen value => Some value
  end.

Definition click (p : Props) (cell : option bool) : option bool :=
  match select Button (SeriesNavigation p cell) with
  | b :: _ =>
      match prop "onClick" b with
      | Some (Handler h) => run h cell
      | _ => cell
      end
  | [] => cell
  end.

Fixpoint clicks (n : nat) (p : Props) (cell : option bool) : option bool :=
  match n with
  | 0 => cell
  | S n' => click p (clicks n' p cell)
  end.

(** The two states of the widget, read off the cell the way
    [useState(false)] reads it. *)
Inductive toggle_state := Collapsed | Expanded.

Definition state_of (cell : option bool) : toggle_state :=
  if (useState false cell).1 then Expanded else Collapsed.

(** ** Vocabulary for the statements *)

Definition type_of (n : node) : option elem_type :=
  match n with
  | Element t _ _ _ => Some t
  | _ => None
  end.

(** The link inside an item and the label inside a link: the first
    child. *)
Definition link_of (n : node) : node := default JsUndefined (head (children n)).
Definition label_of (n : node) : node := default JsUndefined (head (children n)).

(** The articles a render shows: all of them when the widget is open
    and the list is there, none otherwise. *)
Definition shown (p : Props) (cell : option bool) : list (option Article.t) :=
  if (useState false cell).1 then default [] (articles p) else [].

(** The test the component makes on an article: [article?.slug ===
    current]. *)
Definition is_current (current : string) (article : option Article.t) : bool :=
  strict_eq (optional Article.slug article) current.

(** The slugs of the articles that are there. *)
Definition slugs (l : list (option Article.t)) : list string :=
  omap (optional Article.slug) l.

(** The tree without the [className] of its list items. *)
Fixpoint erase_item_class (n : node) : node :=
  match n with
  | Element t k ps cs =>
      Element t k
        (if bool_decide (t = Li)
         then List.filter (λ kv, negb (bool_decide (kv.1 = "className"))) ps
         else ps)
        (map erase_item_class cs)
  | Array items => Array (map erase_item_class items)
  | _ => n
  end.

(** [occurs x s]: [x] is a substring of [s]. *)
Fixpoint occurs (x s : string) : bool :=
  String.prefix x s ||
  match s with
  | EmptyString => false
  | String _ s' => occurs x s'
  end.

Definition ex_props : Props :=
  {| title := "Git";
     articles := Some [Some (Article.mk "foo-bar" "First"); None;
                       Some (Article.mk "b" "Second")];
     current := "b" |}.

Definition ex_twins : Props :=
  {| title := "Git";
     articles := Some [Some (Article.mk "a" "First"); Some (Article.mk "a" "Second")];
     current := "a" |}.

(** ** Vocabulary for further statements *)

(** The handler a click on the button of a tree runs, as [click] finds
    it. *)
Definition onClick_of (n : node) : option handler :=
  match select Button n with
  | b :: _ =>
      match prop "onClick" b with
      | Some (Handler h) => Some h
      | _ => None
      end
  | [] => None
  end.

(** The values of one attribute over the elements of a tree, in
    document order. *)
Definition attribute (name : string) (n : node) : list prop_value :=
  omap (prop name) (elements n).

(** The header row: the first child of the root. *)
Definition header_row (n : node) : node := default JsUndefined (head (children n)).

(** The other state. *)
Definition flip (s : toggle_state) : toggle_state :=
  match s with
  | Collapsed => Expanded
  | Expanded => Collapsed
  end.

(** The event handlers of an element: every prop whose value is a
    function, under whatever name, with the type of the element. *)
Definition handlers_of (n : node) : list (elem_type * string * handler) :=
  match n with
  | Element t _ ps _ =>
      omap (λ kv, match kv.2 with
                  | Handler h => Some (t, kv.1, h)
                  | Str _ => None
                  end) ps
  | _ => []
  end.

(** The event handlers of a tree, in document order. *)
Definition handlers (n : node) : list (elem_type * string * handler) :=
  flat_map handlers_of (elements n).




(** ** What a render contains *)

Section tree_lemmas.
Variable f : nat → option Article.t → node.
Variable P : node → bool.

(** Selecting in the items of a mapped array, when each item holds
    exactly one element that [P] accepts. *)
Lemma filter_elements_imap_one (g : nat → option Article.t → node) l :
  (∀ i a, List.filter P (elements (f i a)) = [g i a]) →
  List.filter P (flat_map elements (imap f l)) = imap g l.
Proof using Type.
  revert f g. induction l as [|a l IH]; intros f g Hone; [done|].
  cbn [imap flat_map]. rewrite List.filter_app, Hone. cbn [app].
  f_equal. apply IH. intros i b. apply Hone.
Qed.

(** Selecting in the items of a mapped array, when no item holds an
    element that [P] accepts. *)
Lemma filter_elements_imap_none l :
  (∀ i a, List.filter P (elements (f i a)) = []) →
  List.filter P (flat_map elements (imap f l)) = [].
Proof using Type.
  revert f. induction l as [|a l IH]; intros f Hnone; [done|].
  cbn [imap flat_map]. rewrite List.filter_app, Hnone. cbn [app].
  apply IH. intros i b. apply Hnone.
Qed.
End tree_lemmas.

Lemma elements_item c i a :
  elements (item c i a) =
    [item c i a; link_of (item c i a); label_of (link_of (item c i a))].
Proof. by destruct a. Qed.

Lemma select_item c i a t :
  List.filter (has_type t) (elements (item c i a)) =
    match t with
    | Li => [item c i a]
    | Link => [link_of (item c i a)]
    | Span => [label_of (link_of (item c i a))]
    | _ => []
    end.
Proof. rewrite elements_item. by destruct t. Qed.

(** The elements of the expanded render: the seven of the frame (root,
    header row, heading, button, icon, body, list), then those of the
    items. *)
Lemma elements_expanded t c l :
  let tree := SeriesNavigation {| title := t; articles := Some l; current := c |} (Some true) in
  elements tree = take 7 (elements tree) ++ flat_map elements (imap (item c) l).
Proof.
  cbv [SeriesNavigation useState default from_option id negb articles current].
  cbn [elements flat_map app imap take].
  by rewrite !app_nil_r.
Qed.

(** Items, links and labels are found in the items only. *)
Lemma select_expanded t c l ty :
  ty ∈ [Li; Link; Span] →
  select ty (SeriesNavigation {| title := t; articles := Some l; current := c |} (Some true)) =
    List.filter (has_type ty) (flat_map elements (imap (item c) l)).
Proof.
  intros Hty. unfold select. rewrite elements_expanded, List.filter_app.
  assert (List.filter (has_type ty)
            (take 7 (elements (SeriesNavigation
               {| title := t; articles := Some l; current := c |} (Some true)))) = [])
    as ->; [|done].
  repeat (apply elem_of_cons in Hty as [->|Hty]; [by vm_compute|]).
  by apply elem_of_nil in Hty.
Qed.

Lemma select_items t c l :
  select Li (SeriesNavigation {| title := t; articles := Some l; current := c |} (Some true)) =
    imap (item c) l.
Proof.
  rewrite select_expanded by repeat constructor.
  apply filter_elements_imap_one. intros i a. by rewrite select_item.
Qed.

Lemma select_links t c l :
  select Link (SeriesNavigation {| title := t; articles := Some l; current := c |} (Some true)) =
    imap (λ i a, link_of (item c i a)) l.
Proof.
  rewrite select_expanded by repeat constructor.
  apply filter_elements_imap_one. intros i a. by rewrite select_item.
Qed.

Lemma select_labels t c l :
  select Span (SeriesNavigation {| title := t; articles := Some l; current := c |} (Some true)) =
    imap (λ i a, label_of (link_of (item c i a))) l.
Proof.
  rewrite select_expanded by repeat constructor.
  apply filter_elements_imap_one. intros i a. by rewrite select_item.
Qed.

(** What the three selections of list content hold, in any state. *)
Lemma select_Li p cell :
  select Li (SeriesNavigation p cell) = imap (item (current p)) (shown p cell).
Proof.
  destruct p as [t [l|] c], cell as [[]|]; try done. apply select_items.
Qed.

Lemma select_Link p cell :
  select Link (SeriesNavigation p cell) =
    imap (λ i a, link_of (item (current p) i a)) (shown p cell).
Proof.
  destruct p as [t [l|] c], cell as [[]|]; try done. apply select_links.
Qed.

Lemma select_Span p cell :
  select Span (SeriesNavigation p cell) =
    imap (λ i a, label_of (link_of (item (current p) i a))) (shown p cell).
Proof.
  destruct p as [t [l|] c], cell as [[]|]; try done. apply select_labels.
Qed.

(** Every other selection is found in the frame. *)
Lemma select_frame p cell ty :
  ty ∉ [Li; Link; Span] →
  select ty (SeriesNavigation p cell) =
    List.filter (has_type ty) (take 7 (elements (SeriesNavigation p cell))).
Proof.
  intros Hty. destruct p as [t [l|] c], cell as [[]|]; try done.
  unfold select. rewrite elements_expanded at 1. rewrite List.filter_app.
  rewrite filter_elements_imap_none; [by rewrite app_nil_r|].
  intros i a. rewrite select_item.
  destruct ty; try done; exfalso; apply Hty; repeat constructor.
Qed.

(** Solves [ty ∉ [Li; Link; Span]] for a type of the frame. *)
Ltac frame_type := by rewrite !elem_of_cons, elem_of_nil; intros [|[|[|]]].

(** ** The toggle *)

Lemma click_negates p cell : click p cell = Some (negb (useState false cell).1).
Proof. by destruct p as [t [l|] c], cell as [[]|]. Qed.

Lemma state_of_click p cell :
  state_of (click p cell) =
    match state_of cell with Collapsed => Expanded | Expanded => Collapsed end.
Proof. rewrite click_negates. by destruct cell as [[]|]. Qed.

Lemma select_Ul p cell :
  length (select Ul (SeriesNavigation p cell)) =
    match state_of cell with Collapsed => 0 | Expanded => 1 end.
Proof.
  rewrite select_frame by frame_type.
  by destruct p as [t [l|] c], cell as [[]|].
Qed.

(** C5. A new widget is collapsed: [useState(false)] reads [false] from
    the empty cell, and the first render of any props holds the header
    row only (root, row, heading, button, down icon), the place of the
    list being taken by [false]: no list, no item, no link. *)
Theorem initial_render_collapsed (p : Props) :
  (useState false mount).1 = false ∧
  state_of mount = Collapsed ∧
  type_of <$> elements (SeriesNavigation p mount) =
    Some <$> [Div; Div; H2; Button; DownIcon] ∧
  children (SeriesNavigation p mount) !! 1 = Some JsFalse ∧
  select Ul (SeriesNavigation p mount) = [] ∧
  select Li (SeriesNavigation p mount) = [] ∧
  select Link (SeriesNavigation p mount) = [].
Proof. by destruct p as [t [l|] c]. Qed.

(** ** The header *)

(** C9. In both states the render holds one button, and its
    [aria-expanded] attribute is the string ["true"]; the state shows in
    the icon only, up when open and down when closed. *)
Theorem aria_expanded_constant (p : Props) (cell : option bool) :
  ∃ b, select Button (SeriesNavigation p cell) = [b] ∧
       prop "aria-expanded" b = Some (Str "true") ∧
       type_of <$> children b =
         [Some (match state_of cell with Expanded => UpIcon | Collapsed => DownIcon end)].
Proof.
  pose proof (select_frame p cell Button) as ->; [|frame_type].
  destruct p as [t [l|] c], cell as [[]|]; eexists; split_and!; reflexivity.
Qed.

Lemma append_nil_r s : s +:+ EmptyString = s.
Proof.
  induction s as [|a s IH]; [done|].
  change (String a (s +:+ EmptyString) = String a s). by rewrite IH.
Qed.

Lemma append_assoc s1 s2 s3 : (s1 +:+ s2) +:+ s3 = s1 +:+ s2 +:+ s3.
Proof.
  induction s1 as [|a s1 IH]; [done|].
  change (String a ((s1 +:+ s2) +:+ s3) = String a (s1 +:+ s2 +:+ s3)). by rewrite IH.
Qed.

Lemma select_H2 p cell :
  text_content <$> select H2 (SeriesNavigation p cell) = [title p +:+ " - Article Series"].
Proof.
  rewrite select_frame by frame_type.
  destruct p as [t [l|] c], cell as [[]|]; reflexivity.
Qed.

Lemma prefix_app x post : String.prefix x (x +:+ post) = true.
Proof.
  induction x as [|a x IH]; [by destruct post|].
  change (String.prefix (String a x) (String a (x +:+ post)) = true).
  cbn [String.prefix]. by destruct (Ascii.ascii_dec a a).
Qed.

Lemma occurs_app pre x post : occurs x (pre +:+ x +:+ post) = true.
Proof.
  induction pre as [|a pre IH].
  - change (occurs x (x +:+ post) = true).
    destruct (x +:+ post) eqn:E; cbn [occurs]; by rewrite <-E, prefix_app.
  - change (occurs x (String a (pre +:+ x +:+ post)) = true).
    cbn [occurs]. rewrite IH. apply orb_true_r.
Qed.

Example occurs_hyphen_label :
  occurs " - Article Series" "Git - Article Series" = true.
Proof. reflexivity. Qed.

(** C3, as the code has it.  In both states the render holds one
    heading, and its text is the series title followed by
    [" - Article Series"]: a space, a hyphen-minus, a space and the
    words. *)
Theorem header_text (p : Props) (cell : option bool) :
  text_content <$> select H2 (SeriesNavigation p cell) = [title p +:+ " - Article Series"].
Proof. apply select_H2. Qed.

(** C3, as stated, fails: the heading of the series ["Git"] reads
    ["Git - Article Series"], in which no em-dash label occurs. *)
Lemma header_has_no_em_dash :
  text_content <$> select H2 (SeriesNavigation ex_props mount) = ["Git - Article Series"] ∧
  ¬ ∃ h pre post,
      h ∈ select H2 (SeriesNavigation ex_props mount) ∧
      text_content h = pre +:+ "— Article Series" +:+ post.
Proof.
  split; [done|]. intros (h & pre & post & Hh & Htext).
  assert (occurs "— Article Series" (text_content h) = true) as Hocc
    by (rewrite Htext; apply occurs_app).
  apply list_elem_of_In in Hh. vm_compute in Hh. destruct Hh as [<-|[]].
  by vm_compute in Hocc.
Qed.

(** ** The list items *)

Lemma highlighted_item c i a :
  highlighted (item c i a) = strict_eq (optional Article.slug a) c.
Proof.
  unfold highlighted, item. cbn [prop assoc].
  by destruct (strict_eq (optional Article.slug a) c).
Qed.

Lemma strict_eq_true v s : strict_eq v s = true ↔ v = Some s.
Proof. unfold strict_eq. by rewrite bool_decide_eq_true. Qed.

Section counting.
Variable c : string.

Lemma filter_highlighted_imap (f : nat → option Article.t → node) l :
  (∀ i a, highlighted (f i a) = is_current c a) →
  length (List.filter highlighted (imap f l)) = length (List.filter (is_current c) l).
Proof using Type.
  revert f. induction l as [|a l IH]; intros f Hf; [done|].
  cbn [imap List.filter]. rewrite Hf.
  destruct (is_current c a); cbn [length]; by rewrite IH by (intros; apply Hf).
Qed.

Lemma filter_hit_absent l : c ∉ slugs l → List.filter (is_current c) l = [].
Proof using Type.
  induction l as [|a l IH]; [done|]. intros Hc. cbn [List.filter].
  destruct (is_current c a) eqn:Ha.
  - apply strict_eq_true in Ha. destruct a as [a|]; [|done].
    exfalso. apply Hc. unfold slugs. cbn in Ha |- *.
    injection Ha as ->. apply list_elem_of_here.
  - apply IH. intros Hin. apply Hc. unfold slugs in *.
    destruct a as [a|]; cbn; [by apply list_elem_of_further|done].
Qed.

Lemma filter_hit_NoDup l : NoDup (slugs l) → length (List.filter (is_current c) l) ≤ 1.
Proof using Type.
  induction l as [|a l IH]; [cbn; lia|]. intros Hnd. cbn [List.filter].
  destruct a as [a|]; [|by apply IH].
  unfold slugs in Hnd. cbn in Hnd. apply NoDup_cons in Hnd as [Hnotin Hnd].
  destruct (is_current c (Some a)) eqn:Ha; [|by apply IH].
  apply strict_eq_true in Ha. cbn in Ha. injection Ha as Ha. rewrite Ha in Hnotin.
  rewrite (filter_hit_absent l Hnotin). cbn. lia.
Qed.

Lemma filter_hit_present l : c ∈ slugs l → 1 ≤ length (List.filter (is_current c) l).
Proof using Type.
  induction l as [|a l IH]; [by intros ?%elem_of_nil|]. intros Hin.
  cbn [List.filter]. destruct (is_current c a) eqn:Ha; [cbn; lia|].
  apply IH. destruct a as [a|]; [|done].
  unfold slugs in Hin. cbn in Hin. apply elem_of_cons in Hin as [->|]; [|done].
  unfold is_current, strict_eq in Ha. cbn in Ha. by rewrite bool_decide_eq_false in Ha.
Qed.
End counting.

(** C1, as the code has it.  In the expanded render there is one item
    per article, in order; an item is highlighted exactly when the slug
    of its article equals [current], so the number of highlighted
    items is the number of articles with that slug: none when no
    article has it, and, when the slugs of the articles are pairwise
    distinct, at most one, and one when some article has it. *)
Theorem highlight_by_slug (t c : string) (l : list (option Article.t)) :
  let items :=
    select Li (SeriesNavigation {| title := t; articles := Some l; current := c |} (Some true)) in
  length items = length l ∧
  (∀ i a, l !! i = Some a →
     ∃ it, items !! i = Some it ∧
           (highlighted it = true ↔ optional Article.slug a = Some c)) ∧
  length (List.filter highlighted items) =
    length (List.filter (is_current c) l) ∧
  (c ∉ slugs l → List.filter highlighted items = []) ∧
  (NoDup (slugs l) → length (List.filter highlighted items) ≤ 1) ∧
  (NoDup (slugs l) → c ∈ slugs l → length (List.filter highlighted items) = 1).
Proof.
  intros items. subst items. rewrite select_items.
  pose proof (filter_highlighted_imap c (item c) l (highlighted_item c)) as Hcount.
  split_and!.
  - apply length_imap.
  - intros i a Hi. exists (item c i a). rewrite list_lookup_imap, Hi. split; [done|].
    by rewrite highlighted_item, strict_eq_true.
  - done.
  - intros Hc. apply length_zero_iff_nil. by rewrite Hcount, filter_hit_absent.
  - intros Hnd. rewrite Hcount. by apply filter_hit_NoDup.
  - intros Hnd Hc. rewrite Hcount.
    pose proof (filter_hit_NoDup c l Hnd). pose proof (filter_hit_present c l Hc). lia.
Qed.

Lemma highlight_by_slug_witness :
  length (List.filter highlighted (select Li (SeriesNavigation ex_props (Some true)))) = 1.
Proof.
  apply (highlight_by_slug "Git" "b"
           [Some (Article.mk "foo-bar" "First"); None; Some (Article.mk "b" "Second")]).
  - apply (bool_decide_unpack _). by vm_compute.
  - apply (bool_decide_unpack _). by vm_compute.
Defined.

(** C1, as stated, fails: two articles with the slug of the current
    article are both highlighted. *)
Lemma twins_both_highlighted :
  length (List.filter highlighted (select Li (SeriesNavigation ex_twins (Some true)))) = 2 ∧
  ¬ (∀ p cell,
       length (List.filter highlighted (select Li (SeriesNavigation p cell))) ≤ 1).
Proof.
  split; [done|]. intros Hmost. specialize (Hmost ex_twins (Some true)).
  vm_compute in Hmost. lia.
Qed.

(** ** The links *)

(** C4. In the expanded render the link of the article at index [i] is
    the only child of item [i], and its [href] is the base URL
    ["https://ayoubkhial.com/blog/"] followed by the article's slug,
    unchanged. *)
Theorem link_target (t c : string) (l : list (option Article.t)) (i : nat) (a : Article.t) :
  l !! i = Some (Some a) →
  let tree := SeriesNavigation {| title := t; articles := Some l; current := c |} (Some true) in
  ∃ it link,
    select Li tree !! i = Some it ∧
    children it = [link] ∧
    select Link tree !! i = Some link ∧
    type_of link = Some Link ∧
    prop "href" link = Some (Str ("https://ayoubkhial.com/blog/" +:+ Article.slug a)).
Proof.
  intros Hi tree. subst tree. rewrite select_items, select_links.
  exists (item c i (Some a)), (link_of (item c i (Some a))).
  rewrite !list_lookup_imap, Hi. by split_and!.
Qed.

Lemma link_target_witness :
  ∃ it link,
    select Li (SeriesNavigation ex_props (Some true)) !! 0 = Some it ∧
    children it = [link] ∧
    select Link (SeriesNavigation ex_props (Some true)) !! 0 = Some link ∧
    type_of link = Some Link ∧
    prop "href" link = Some (Str "https://ayoubkhial.com/blog/foo-bar").
Proof.
  by apply (link_target "Git" "b"
              [Some (Article.mk "foo-bar" "First"); None; Some (Article.mk "b" "Second")]
              0 (Article.mk "foo-bar" "First")).
Defined.

(** C8. Every link of a render, in any state, has [target="_blank"]
    and a [rel] whose words include [noopener] and [noreferrer]; the
    expanded render has one link per article. *)
Theorem links_open_isolated (p : Props) (cell : option bool) :
  (∀ l, articles p = Some l →
     length (select Link (SeriesNavigation p (Some true))) = length l) ∧
  (∀ link, link ∈ select Link (SeriesNavigation p cell) →
     prop "target" link = Some (Str "_blank") ∧
     ∃ rel, prop "rel" link = Some (Str rel) ∧
            "noopener" ∈ String.words rel ∧ "noreferrer" ∈ String.words rel).
Proof.
  split.
  - intros l Hl. destruct p as [t a c]. cbn in Hl. subst a.
    by rewrite select_links, length_imap.
  - intros link. rewrite select_Link.
    intros (i & a & -> & _)%elem_of_lookup_imap_1.
    split; [done|]. exists "noopener noreferrer".
    split_and!; [done| |]; apply (bool_decide_unpack _); by vm_compute.
Qed.

Lemma links_open_isolated_witness :
  length (select Link (SeriesNavigation ex_props (Some true))) = 3 ∧
  prop "target" (link_of (item "b" 0 (Some (Article.mk "foo-bar" "First")))) =
    Some (Str "_blank").
Proof.
  destruct (links_open_isolated ex_props (Some true)) as [Hcount Hlink].
  split.
  - exact (Hcount _ eq_refl).
  - apply Hlink. by apply (list_elem_of_lookup_2 _ 0).
Defined.

(** ** The labels *)

Lemma text_content_item c i a :
  text_content (item c i a) =
    "Part " +:+ pretty (i + 1) +:+ ": " +:+ from_option Article.title EmptyString a.
Proof.
  destruct a as [a|]; cbn [item text_content foldr optional fmap option_fmap option_map
                            child_of from_option];
    by rewrite !append_nil_r, !append_assoc.
Qed.

(** C6. In the expanded render the label of the item at index [i] is
    the [span] with the children ["Part "], the number [i + 1] and
    [":"], whose text is ["Part "], [i + 1] in decimal and a colon; the
    text of the item is that label, a space, and the title of the
    article (nothing for an article that is not there). *)
Theorem position_label (t c : string) (l : list (option Article.t)) (i : nat)
    (a : option Article.t) :
  l !! i = Some a →
  let tree := SeriesNavigation {| title := t; articles := Some l; current := c |} (Some true) in
  ∃ it label,
    select Li tree !! i = Some it ∧
    select Span tree !! i = Some label ∧
    label = label_of (link_of it) ∧
    children label = [Text "Part "; Number (i + 1); Text ":"] ∧
    text_content label = "Part " +:+ pretty (i + 1) +:+ ":" ∧
    text_content it =
      "Part " +:+ pretty (i + 1) +:+ ": " +:+ from_option Article.title EmptyString a.
Proof.
  intros Hi tree. subst tree. rewrite select_items, select_labels.
  exists (item c i a), (label_of (link_of (item c i a))).
  rewrite !list_lookup_imap, Hi. split_and!; try done.
  apply text_content_item.
Qed.

Lemma position_label_witness :
  ∃ it label,
    select Li (SeriesNavigation ex_props (Some true)) !! 2 = Some it ∧
    select Span (SeriesNavigation ex_props (Some true)) !! 2 = Some label ∧
    label = label_of (link_of it) ∧
    children label = [Text "Part "; Number 3; Text ":"] ∧
    text_content label = "Part 3:" ∧
    text_content it = "Part 3: Second".
Proof.
  by apply (position_label "Git" "b"
              [Some (Article.mk "foo-bar" "First"); None; Some (Article.mk "b" "Second")]
              2 (Some (Article.mk "b" "Second"))).
Defined.

(** ** What [current] can change *)

Lemma erase_items c1 c2 l :
  map erase_item_class (imap (item c1) l) = map erase_item_class (imap (item c2) l).
Proof.
  change (erase_item_class <$> imap (item c1) l = erase_item_class <$> imap (item c2) l).
  rewrite !fmap_imap. by apply imap_ext.
Qed.

Lemma erase_render t a c1 c2 cell :
  erase_item_class (SeriesNavigation {| title := t; articles := a; current := c1 |} cell) =
  erase_item_class (SeriesNavigation {| title := t; articles := a; current := c2 |} cell).
Proof.
  destruct a as [l|], cell as [[]|]; try done.
  cbv [SeriesNavigation useState default from_option id negb articles current title].
  cbn [erase_item_class map]. by rewrite (erase_items c1 c2 l).
Qed.

(** C10. Two renders that differ in [current] only are the same tree
    once the [className] of the list items is left out; in particular
    they have the same number of items, with the same keys in the same
    order, the same texts (position label and title), the same links
    (hence link targets) and the same labels. *)
Theorem current_styles_items_only (t : string) (a : option (list (option Article.t)))
    (c1 c2 : string) (cell : option bool) :
  let r1 := SeriesNavigation {| title := t; articles := a; current := c1 |} cell in
  let r2 := SeriesNavigation {| title := t; articles := a; current := c2 |} cell in
  erase_item_class r1 = erase_item_class r2 ∧
  length (select Li r1) = length (select Li r2) ∧
  key <$> select Li r1 = key <$> select Li r2 ∧
  text_content <$> select Li r1 = text_content <$> select Li r2 ∧
  select Link r1 = select Link r2 ∧
  prop "href" <$> select Link r1 = prop "href" <$> select Link r2 ∧
  select Span r1 = select Span r2.
Proof.
  intros r1 r2. subst r1 r2. rewrite !select_Li, !select_Link, !select_Span.
  change (shown {| title := t; articles := a; current := c2 |} cell)
    with (shown {| title := t; articles := a; current := c1 |} cell).
  cbn [current].
  split_and!.
  - apply erase_render.
  - by rewrite !length_imap.
  - rewrite !fmap_imap. by apply imap_ext.
  - rewrite !fmap_imap. apply imap_ext. intros i x _. unfold compose.
    by rewrite !text_content_item.
  - by apply imap_ext.
  - rewrite !fmap_imap. by apply imap_ext.
  - by apply imap_ext.
Qed.

(** ** Inputs at the edge *)

(** C7. A render is a total function of props and state, and always
    returns the root element.  Expanded, an empty list gives the frame
    with a [ul] holding an empty array and no item; a missing list gives
    the frame with a [ul] holding [undefined] and no item.  In any state,
    when no article has the slug [current], no item is highlighted. *)
Theorem render_at_the_edge (t c : string) :
  (∀ p cell, type_of (SeriesNavigation p cell) = Some Div) ∧
  (let tree := SeriesNavigation {| title := t; articles := Some []; current := c |} (Some true) in
   type_of <$> elements tree = Some <$> [Div; Div; H2; Button; UpIcon; Div; Ul] ∧
   children <$> select Ul tree = [[Array []]] ∧
   select Li tree = []) ∧
  (let tree := SeriesNavigation {| title := t; articles := None; current := c |} (Some true) in
   type_of <$> elements tree = Some <$> [Div; Div; H2; Button; UpIcon; Div; Ul] ∧
   children <$> select Ul tree = [[JsUndefined]] ∧
   select Li tree = []) ∧
  (∀ a cell,
     c ∉ slugs (default [] a) →
     List.filter highlighted
       (select Li (SeriesNavigation {| title := t; articles := a; current := c |} cell)) = []).
Proof.
  split_and!; try done.
  intros a cell Hc. rewrite select_Li. cbn [current].
  apply length_zero_iff_nil.
  rewrite (filter_highlighted_imap c) by apply highlighted_item.
  rewrite filter_hit_absent; [done|].
  unfold shown. destruct a as [l|], cell as [[]|]; cbn; first [done | by intros ?%elem_of_nil].
Qed.

Lemma render_at_the_edge_witness :
  List.filter highlighted
    (select Li (SeriesNavigation {| title := "Git"; articles := articles ex_props;
                                    current := "x" |} (Some true))) = [].
Proof.
  apply (render_at_the_edge "Git" "x").
  apply (bool_decide_unpack _). by vm_compute.
Defined.

(** ** The toggle and the list *)

Lemma is_open_clicks p n : (useState false (clicks n p mount)).1 = Nat.odd n.
Proof.
  induction n as [|n IH]; [done|].
  cbn [clicks]. rewrite click_negates.
  change (negb (useState false (clicks n p mount)).1 = Nat.odd (S n)).
  by rewrite IH, Nat.odd_succ, <-Nat.negb_odd.
Qed.

(** C2. The state after [n] clicks from a new widget depends on the
    parity of [n] only.  When [n] is odd the widget is expanded and the
    list is in the tree: one [ul], holding one item per article, in
    order, each the item of its article with its part number and title.
    When [n] is even the widget is collapsed, [false] takes the place of
    the list and the tree has no [ul] and no item.  One click always
    changes the state and two restore it. *)
Theorem toggle_parity (p : Props) (n : nat) :
  state_of (clicks n p mount) = (if Nat.odd n then Expanded else Collapsed) ∧
  length (select Ul (SeriesNavigation p (clicks n p mount))) = (if Nat.odd n then 1 else 0) ∧
  (Nat.odd n = false →
     children (SeriesNavigation p (clicks n p mount)) !! 1 = Some JsFalse) ∧
  state_of (clicks 1 p mount) = Expanded ∧
  state_of (clicks 2 p mount) = Collapsed ∧
  (∀ cell, state_of (click p cell) ≠ state_of cell) ∧
  (∀ cell, state_of (click p (click p cell)) = state_of cell) ∧
  select Li (SeriesNavigation p (clicks n p mount)) =
    (if Nat.odd n then imap (item (current p)) (default [] (articles p)) else []) ∧
  length (select Li (SeriesNavigation p (clicks n p mount))) =
    (if Nat.odd n then length (default [] (articles p)) else 0) ∧
  text_content <$> select Li (SeriesNavigation p (clicks n p mount)) =
    (if Nat.odd n
     then imap (λ i a, "Part " +:+ pretty (i + 1) +:+ ": " +:+
                       from_option Article.title EmptyString a)
            (default [] (articles p))
     else []) ∧
  (Nat.odd n = true →
     children <$> select Ul (SeriesNavigation p (clicks n p mount)) =
       [[from_option (λ l, Array (imap (item (current p)) l)) JsUndefined (articles p)]]).
Proof.
  assert (state_of (clicks n p mount) = if Nat.odd n then Expanded else Collapsed) as Hn.
  { unfold state_of. rewrite is_open_clicks. by destruct (Nat.odd n). }
  assert (select Li (SeriesNavigation p (clicks n p mount)) =
          if Nat.odd n then imap (item (current p)) (default [] (articles p)) else []) as Hli.
  { rewrite select_Li. unfold shown. rewrite is_open_clicks. by destruct (Nat.odd n). }
  split_and!.
  - done.
  - rewrite select_Ul, Hn. by destruct (Nat.odd n).
  - intros Hodd. rewrite Hodd in Hn.
    destruct p as [t [l|] c], (clicks n _ mount) as [[]|]; done.
  - cbn [clicks]. by rewrite !state_of_click.
  - cbn [clicks]. by rewrite !state_of_click.
  - intros cell. rewrite state_of_click. by destruct (state_of cell).
  - intros cell. rewrite !state_of_click. by destruct (state_of cell).
  - done.
  - rewrite Hli. destruct (Nat.odd n); [apply length_imap|done].
  - rewrite Hli. destruct (Nat.odd n); [|done].
    rewrite fmap_imap. apply imap_ext. intros i a _. apply text_content_item.
  - intros Hodd. rewrite Hodd in Hn.
    rewrite select_frame by frame_type.
    destruct p as [t [l|] c], (clicks n _ mount) as [[]|]; done.
Qed.

Lemma toggle_parity_witness :
  children (SeriesNavigation ex_props (clicks 4 ex_props mount)) !! 1 = Some JsFalse ∧
  children <$> select Ul (SeriesNavigation ex_props (clicks 1 ex_props mount)) =
    [[Array (imap (item "b") [Some (Article.mk "foo-bar" "First"); None;
                              Some (Article.mk "b" "Second")])]] ∧
  text_content <$> select Li (SeriesNavigation ex_props (clicks 1 ex_props mount)) =
    ["Part 1: First"; "Part 2: "; "Part 3: Second"].
Proof.
  split_and!.
  - by apply (toggle_parity ex_props 4).
  - by apply (toggle_parity ex_props 1).
  - by apply (toggle_parity ex_props 1).
Defined.

(** ** Further properties of the component *)

(** *** Keys *)

(** X1. The keys of the items of a render are [0], [1], ... in order,
    one per shown article, hence pairwise distinct. *)
Theorem item_keys (p : Props) (cell : option bool) :
  key <$> select Li (SeriesNavigation p cell) = Some <$> seq 0 (length (shown p cell)) ∧
  NoDup (key <$> select Li (SeriesNavigation p cell)).
Proof.
  assert (key <$> select Li (SeriesNavigation p cell) =
          Some <$> seq 0 (length (shown p cell))) as Hkeys.
  { rewrite select_Li, fmap_imap. apply (imap_seq_0 (shown p cell) Some). }
  split; [done|]. rewrite Hkeys.
  apply (NoDup_fmap_2 Some), NoDup_seq.
Qed.

(** *** The handler and the state *)

Lemma onClick_of_render p cell :
  onClick_of (SeriesNavigation p cell) = Some (SetIsOpen (negb (useState false cell).1)).
Proof. by destruct p as [t [l|] c], cell as [[]|]. Qed.

(** X2. The handler a render puts on the button is fixed by the state of
    that render, not by its props: run on any cell it stores the
    negation of the [isOpen] the render saw.  So it gives what a click
    gives, and run twice without a render in between it leaves what one
    run leaves: the state changes once, not twice. *)
Theorem handler_fixed_at_render (p : Props) (cell : option bool) :
  ∃ h, onClick_of (SeriesNavigation p cell) = Some h ∧
       (∀ p', onClick_of (SeriesNavigation p' cell) = Some h) ∧
       (∀ cell', run h cell' = Some (negb (useState false cell).1)) ∧
       run h cell = click p cell ∧
       run h (run h cell) = run h cell ∧
       state_of (run h (run h cell)) = flip (state_of cell).
Proof.
  exists (SetIsOpen (negb (useState false cell).1)).
  split_and!.
  - apply onClick_of_render.
  - intros p'. apply onClick_of_render.
  - done.
  - by rewrite click_negates.
  - done.
  - by destruct cell as [[]|].
Qed.

Lemma clicks_add n m p cell : clicks (n + m) p cell = clicks n p (clicks m p cell).
Proof. induction n as [|n IH]; [done|]. cbn [Nat.add clicks]. by rewrite IH. Qed.

Lemma clicks_props n p p' cell : clicks n p cell = clicks n p' cell.
Proof.
  induction n as [|n IH]; [done|]. cbn [clicks]. by rewrite IH, !click_negates.
Qed.

(** X3. From any state, an even number of clicks leaves the state and an
    odd number flips it; clicks add up, and the props play no part in
    the state reached. *)
Theorem clicks_from_any_state (p p' : Props) (n m : nat) (cell : option bool) :
  state_of (clicks n p cell) = (if Nat.even n then state_of cell else flip (state_of cell)) ∧
  clicks (n + m) p cell = clicks n p (clicks m p cell) ∧
  clicks n p cell = clicks n p' cell.
Proof.
  split_and!; [|apply clicks_add|apply clicks_props].
  induction n as [|n IH]; [done|].
  cbn [clicks]. rewrite state_of_click, IH, Nat.even_succ, <-Nat.negb_even.
  by destruct (Nat.even n), (state_of cell).
Qed.

(** X4. A collapsed render shows the title and nothing else of the
    props: two collapsed renders with the same title are the same tree,
    whatever the articles, the current slug, and whether the cell is
    still empty or holds [false]. *)
Theorem collapsed_render_title_only (t : string)
    (a1 a2 : option (list (option Article.t))) (c1 c2 : string) (cell1 cell2 : option bool) :
  state_of cell1 = Collapsed →
  state_of cell2 = Collapsed →
  SeriesNavigation {| title := t; articles := a1; current := c1 |} cell1 =
  SeriesNavigation {| title := t; articles := a2; current := c2 |} cell2.
Proof. by destruct cell1 as [[]|], cell2 as [[]|]. Qed.

Lemma collapsed_render_title_only_witness :
  SeriesNavigation ex_props mount =
  SeriesNavigation {| title := "Git"; articles := None; current := "z" |} (Some false).
Proof.
  by apply (collapsed_render_title_only "Git" (articles ex_props) None "b" "z" mount (Some false)).
Defined.

(** *** Attributes over the whole tree *)

Lemma omap_elements_imap name (f : nat → option Article.t → node) l :
  (∀ i a, attribute name (f i a) = []) →
  omap (prop name) (flat_map elements (imap f l)) = [].
Proof.
  revert f. induction l as [|a l IH]; intros f Hf; [done|].
  cbn [imap flat_map]. rewrite omap_app. unfold attribute in Hf. rewrite Hf.
  apply IH. intros i b. apply Hf.
Qed.

(** An attribute the items do not carry is found in the frame only. *)
Lemma attribute_frame name p cell :
  (∀ c i a, attribute name (item c i a) = []) →
  attribute name (SeriesNavigation p cell) =
    omap (prop name) (take 7 (elements (SeriesNavigation p cell))).
Proof.
  intros Hitem. unfold attribute.
  destruct p as [t [l|] c], cell as [[]|]; try done.
  rewrite elements_expanded at 1. rewrite omap_app.
  rewrite omap_elements_imap; [by rewrite app_nil_r|]. apply Hitem.
Qed.

Lemma attribute_item name c i a :
  name ∈ ["id"; "aria-controls"; "aria-labelledby"; "onClick"] →
  attribute name (item c i a) = [].
Proof.
  intros Hname. unfold attribute. rewrite elements_item.
  repeat (apply elem_of_cons in Hname as [->|Hname]; [by destruct a|]).
  by apply elem_of_nil in Hname.
Qed.

(** X5. The class list of the header row ends with [border-b-slate-200]
    when the widget is expanded; when it is collapsed the template
    [${isOpen && '...'}] puts the word [false] there instead. *)
Theorem header_row_class (p : Props) (cell : option bool) :
  ∃ cls, prop "className" (header_row (SeriesNavigation p cell)) = Some (Str cls) ∧
         last (String.words cls) =
           Some (match state_of cell with
                 | Expanded => "border-b-slate-200"
                 | Collapsed => "false"
                 end) ∧
         ("false" ∈ String.words cls ↔ state_of cell = Collapsed) ∧
         ("border-b-slate-200" ∈ String.words cls ↔ state_of cell = Expanded).
Proof.
  destruct cell as [[]|]; eexists; (split; [reflexivity|]); (split; [by vm_compute|]);
    split; split; intros H;
    first [ done
          | apply (bool_decide_unpack _); by vm_compute
          | apply list_elem_of_In in H; vm_compute in H; intuition discriminate ].
Qed.

(** X6. The ids of a render are [accordion-collapse] and, when
    expanded, [accordion-collapse-body], each once.  The button's
    [aria-controls] names the body in both states, also when the body is
    not in the tree; the body's [aria-labelledby] names
    [accordion-collapse-heading], an id no element of any render has. *)
Theorem element_ids (p : Props) (cell : option bool) :
  let tree := SeriesNavigation p cell in
  attribute "id" tree =
    Str "accordion-collapse" ::
    match state_of cell with
    | Expanded => [Str "accordion-collapse-body"]
    | Collapsed => []
    end ∧
  NoDup (attribute "id" tree) ∧
  attribute "aria-controls" tree = [Str "accordion-collapse-body"] ∧
  attribute "aria-labelledby" tree =
    match state_of cell with
    | Expanded => [Str "accordion-collapse-heading"]
    | Collapsed => []
    end ∧
  Str "accordion-collapse-heading" ∉ attribute "id" tree.
Proof.
  intros tree. subst tree.
  rewrite !attribute_frame by (intros; apply attribute_item; repeat constructor).
  destruct p as [t [l|] c], cell as [[]|]; split_and!; try done;
    first [ apply (bool_decide_unpack _); by vm_compute
          | intros H; apply list_elem_of_In in H; vm_compute in H; intuition discriminate ].
Qed.

Lemma handlers_elements_imap (f : nat → option Article.t → node) l :
  (∀ i a, handlers (f i a) = []) →
  flat_map handlers_of (flat_map elements (imap f l)) = [].
Proof.
  revert f. induction l as [|a l IH]; intros f Hf; [done|].
  cbn [imap flat_map]. rewrite flat_map_app. unfold handlers in Hf. rewrite Hf.
  apply IH. intros i b. apply Hf.
Qed.

Lemma handlers_item c i a : handlers (item c i a) = [].
Proof. unfold handlers. rewrite elements_item. by destruct a. Qed.

(** X7. A render carries exactly one event handler, under any prop name
    and on any element: the [onClick] of the button, which stores the
    negation of the [isOpen] of the render.  No item, link, label or
    other element has a handler. *)
Theorem single_handler (p : Props) (cell : option bool) :
  handlers (SeriesNavigation p cell) =
    [(Button, "onClick", SetIsOpen (negb (useState false cell).1))] ∧
  attribute "onClick" (SeriesNavigation p cell) =
    [Handler (SetIsOpen (negb (useState false cell).1))].
Proof.
  split.
  - unfold handlers. destruct p as [t [l|] c], cell as [[]|]; try done.
    rewrite elements_expanded, flat_map_app.
    rewrite handlers_elements_imap; [done|]. intros i a. apply handlers_item.
  - rewrite attribute_frame by (intros; apply attribute_item; repeat constructor).
    by destruct p as [t [l|] c], cell as [[]|].
Qed.

(** *** Entries, link targets and labels *)





Lemma href_item c i a :
  prop "href" (link_of (item c i a)) =
    Some (Str (base_url +:+ default "undefined" (optional Article.slug a))).
Proof. done. Qed.

(** X9. Every link target of a render is the base URL followed by
    something, and the targets of two articles that are there are equal
    exactly when their slugs are: the slug can be read back from the
    target. *)
Theorem link_targets_tell_slugs (t c : string) (l : list (option Article.t))
    (i j : nat) (a b : Article.t) :
  let hrefs :=
    prop "href" <$>
      select Link (SeriesNavigation {| title := t; articles := Some l; current := c |} (Some true)) in
  (∀ k h, hrefs !! k = Some h →
     ∃ s, h = Some (Str ("https://ayoubkhial.com/blog/" +:+ s))) ∧
  (l !! i = Some (Some a) → l !! j = Some (Some b) →
     (hrefs !! i = hrefs !! j ↔ Article.slug a = Article.slug b)).
Proof.
  intros hrefs. subst hrefs. rewrite select_links, fmap_imap. split.
  - intros k h. rewrite list_lookup_imap.
    destruct (l !! k) as [x|]; [|done]. intros [= <-]. by eexists.
  - intros Hi Hj. rewrite !list_lookup_imap, Hi, Hj.
    change (Some (prop "href" (link_of (item c i (Some a)))) =
            Some (prop "href" (link_of (item c j (Some b)))) ↔
            Article.slug a = Article.slug b).
    rewrite !href_item. cbn [optional fmap option_fmap option_map default from_option id].
    split; [|by intros ->].
    intros H. injection H as H. exact H.
Qed.

Lemma link_targets_tell_slugs_witness :
  prop "href" <$> select Link (SeriesNavigation ex_twins (Some true)) !! 0 =
  prop "href" <$> select Link (SeriesNavigation ex_twins (Some true)) !! 1.
Proof.
  rewrite <-!list_lookup_fmap.
  by apply (link_targets_tell_slugs "Git" "a"
              [Some (Article.mk "a" "First"); Some (Article.mk "a" "Second")]
              0 1 (Article.mk "a" "First") (Article.mk "a" "Second")).
Defined.

Lemma length_append s1 s2 :
  String.length (s1 +:+ s2) = String.length s1 + String.length s2.
Proof.
  induction s1 as [|a s1 IH]; [done|].
  change (S (String.length (s1 +:+ s2)) = S (String.length s1 + String.length s2)).
  by rewrite IH.
Qed.

Lemma append_inj_r s1 s2 x : s1 +:+ x = s2 +:+ x → s1 = s2.
Proof.
  intros H.
  assert (String.length s1 = String.length s2) as Hlen.
  { apply (f_equal String.length) in H. rewrite !length_append in H. lia. }
  revert s2 H Hlen. induction s1 as [|a s1 IH]; intros [|b s2] H Hlen; try done.
  change (String a (s1 +:+ x) = String b (s2 +:+ x)) in H.
  injection H as -> H. f_equal. apply IH; [done|]. by injection Hlen.
Qed.

Lemma text_content_label c i a :
  text_content (label_of (link_of (item c i a))) = "Part " +:+ pretty (i + 1) +:+ ":".
Proof. done. Qed.

(** X10. The position labels of a render are pairwise distinct: no two
    items are given the same part number. *)
Theorem position_labels_distinct (p : Props) (cell : option bool) :
  NoDup (text_content <$> select Span (SeriesNavigation p cell)).
Proof.
  rewrite select_Span, fmap_imap.
  rewrite (imap_ext _ (λ i _, "Part " +:+ pretty (i + 1) +:+ ":"))
    by (intros; apply text_content_label).
  rewrite (imap_seq_0 (shown p cell) (λ i, "Part " +:+ pretty (i + 1) +:+ ":")).
  apply NoDup_fmap_2; [|apply NoDup_seq].
  intros i j H. apply (inj (String.append "Part ")) in H.
  apply append_inj_r in H. apply (inj pretty) in H. lia.
Qed.
